(** * Kernel Ridge and Kernel Logistic Regression (src/models.py)

    A shallow embedding of the two estimators of [src/models.py].

    - numpy arrays of floats are modelled over the real numbers [R]:
      a matrix is the list of its rows, a column vector of shape (n, 1)
      is the list of its entries;
    - the Python heap is modelled explicitly: the caller's training
      array [X] lives at a location of a [heap], and the estimator's
      [Data] field stores that location (Python stores the reference);
    - each method runs in a small state/error/output monad [M]: the
      state is the estimator object [self], errors are Python exception
      classes, and the output is the list of lines printed on stdout. *)

From Stdlib Require Import String List ZArith Reals Lra Lia.
From Stdlib Require Import ClassicalDescription Ranalysis1 Ranalysis3 Exp_prop Rpower.
Import ListNotations.

Open Scope string_scope.
Open Scope R_scope.

(** ** numpy arrays over the reals *)

Definition vec := list R.
Definition mat := list (list R).

Fixpoint zip_with {A B C} (f : A -> B -> C) (l1 : list A) (l2 : list B) : list C :=
  match l1, l2 with
  | a :: l1', b :: l2' => f a b :: zip_with f l1' l2'
  | _, _ => []
  end.

Definition sum (v : vec) : R := fold_right Rplus 0 v.

Definition dot (u v : vec) : R := sum (zip_with Rmult u v).

(** [A @ x] for a matrix [A] and a column vector [x]. *)
Definition mat_vec (A : mat) (x : vec) : vec := map (fun r => dot r x) A.

(** [B.T] *)
Definition transpose (B : mat) : mat :=
  map (fun j => map (fun r => nth j r 0) B) (seq 0 (length (hd [] B))).

(** [A @ B] for two matrices. *)
Definition mat_mul (A B : mat) : mat :=
  map (fun r => map (fun c => dot r c) (transpose B)) A.

(** element-wise [u + v], [u - v], [u * v] *)
Definition vadd (u v : vec) : vec := zip_with Rplus u v.
Definition vsub (u v : vec) : vec := zip_with Rminus u v.
Definition vmul (u v : vec) : vec := zip_with Rmult u v.

Definition madd (A B : mat) : mat := zip_with vadd A B.

(** [c * A] *)
Definition scale (c : R) (A : mat) : mat := map (map (Rmult c)) A.

(** [np.eye(n)] *)
Definition eye (n : nat) : mat :=
  map (fun i => map (fun j => if Nat.eqb i j then 1 else 0) (seq 0 n)) (seq 0 n).

(** [np.diag(l)] for a one-dimensional [l] *)
Definition diag (l : vec) : mat :=
  map (fun i => map (fun j => if Nat.eqb i j then nth i l 0 else 0)
                    (seq 0 (length l)))
      (seq 0 (length l)).

(** [np.zeros((n, 1))] *)
Definition zeros (n : nat) : vec := repeat 0 n.

(** [np.linalg.norm] of an (n, 1) array: the Frobenius (Euclidean) norm. *)
Definition norm (v : vec) : R := sqrt (sum (map (fun x => x * x) v)).

(** ** Python exceptions *)

Definition exc := string.
Definition LinAlgError : exc := "LinAlgError".
Definition ValueError : exc := "ValueError".
Definition AttributeError : exc := "AttributeError".
Definition UnboundLocalError : exc := "UnboundLocalError".
Definition ConfigError : exc := "ConfigError".

(** ** [np.linalg.solve]

    LAPACK's [gesv] in exact arithmetic: a non-square coefficient matrix
    and a singular one raise [LinAlgError], a right-hand side of the wrong
    length raises [ValueError], and otherwise the unique solution is
    returned. *)

Definition square (A : mat) : bool :=
  forallb (fun r => Nat.eqb (length r) (length A)) A.

Definition uniquely_solvable (A : mat) : Prop :=
  forall b : vec, length b = length A ->
    exists! x : vec, length x = length A /\ mat_vec A x = b.

Definition solve (A : mat) (b : vec) : exc + vec :=
  if negb (square A) then inl LinAlgError
  else match Nat.eq_dec (length b) (length A) with
       | right _ => inl ValueError
       | left Hb =>
           match excluded_middle_informative (uniquely_solvable A) with
           | left HA => inr (proj1_sig (constructive_definite_description _ (HA b Hb)))
           | right _ => inl LinAlgError
           end
       end.

(** [K @ a] for a column vector [a] ([K @ self.Alpha] in [predict],
    [K @ alpha_old] in [train]): numpy checks the inner dimensions.
    [K @ None] raises [ValueError] too (the operand has no dimension). *)
Definition mat_vec_checked (K : mat) (a : vec) : exc + vec :=
  if forallb (fun r => Nat.eqb (length r) (length a)) K
  then inr (mat_vec K a) else inl ValueError.

(** ** The Python heap *)

Definition loc := nat.
Definition heap := loc -> mat.

(** the caller's in-place assignment to the array at [l] *)
Definition heap_upd (H : heap) (l : loc) (M : mat) : heap :=
  fun l' => if Nat.eqb l l' then M else H l'.

(** ** Kernel functions

    [kernel_func] takes two sets of vectors and returns their Gram
    matrix; the estimators also call it with [None] as second argument
    ([self.Data] before training), where it either raises or returns
    something. *)

Record kernel_func := mkKernel {
  kernel_arr : mat -> mat -> mat;
  kernel_none : mat -> exc + mat
}.

Definition apply_kernel (k : kernel_func) (X1 : mat) (X2 : option mat) : exc + mat :=
  match X2 with
  | Some X2 => inr (kernel_arr k X1 X2)
  | None => kernel_none k X1
  end.

(** [lambda X1, X2: X1 @ X2.T]; [None.T] raises [AttributeError]. *)
Definition linear_kernel : kernel_func :=
  mkKernel (fun X1 X2 => mat_mul X1 (transpose X2)) (fun _ => inl AttributeError).

(** ** State, error and output monad *)

Inductive event :=
| Banner (name : string)
| NotConverged (max_iter : Z).

Definition M (S A : Type) : Type := S -> (exc + A) * S * list event.

Definition ret {S A} (a : A) : M S A := fun s => (inr a, s, []).

Definition bind {S A B} (m : M S A) (f : A -> M S B) : M S B :=
  fun s =>
    match m s with
    | (inl e, s', o) => (inl e, s', o)
    | (inr a, s', o) => let '(r, s'', o') := f a s' in (r, s'', (o ++ o')%list)
    end.

Definition get {S} : M S S := fun s => (inr s, s, []).
Definition modify {S} (f : S -> S) : M S unit := fun s => (inr tt, f s, []).
Definition lift {S A} (r : exc + A) : M S A := fun s => (r, s, []).
Definition print {S} (ev : event) : M S unit := fun s => (inr tt, s, [ev]).

Notation "x <- m ;; k" := (bind m (fun x => k))
  (at level 61, m at next level, right associativity).
Notation "m ;; k" := (bind m (fun _ => k))
  (at level 61, right associativity).

(** ** class KernelRidgeRegression *)

Module KernelRidgeRegression.

Record t := mk {
  Kernel : kernel_func;
  Alpha : option vec;
  Data : option loc;
  Lambda : R
}.

Definition set_Alpha (a : option vec) (s : t) : t := mk (Kernel s) a (Data s) (Lambda s).
Definition set_Data (d : option loc) (s : t) : t := mk (Kernel s) (Alpha s) d (Lambda s).

(** [__init__]: stores the arguments and prints a banner. *)
Definition init (kernel_func : kernel_func) (Lambda : R) : (exc + t) * list event :=
  (inr (mk kernel_func None None Lambda), [Banner "Kernel Ridge Regression"]).

Definition reset : M t unit :=
  modify (set_Alpha None) ;;
  modify (set_Data None).

Definition train (H : heap) (X : loc) (y : vec) : M t unit :=
  modify (set_Data (Some X)) ;;
  self <- get ;;
  let K := kernel_arr (Kernel self) (H X) (H X) in
  let n := length K in
  let I := eye n in
  a <- lift (solve (madd K (scale (Lambda self * INR n) I)) y) ;;
  modify (set_Alpha (Some a)).

Definition predict (H : heap) (X : mat) : M t vec :=
  self <- get ;;
  K <- lift (apply_kernel (Kernel self) X (option_map H (Data self))) ;;
  match Alpha self with
  | None => lift (inl ValueError)
  | Some a => lift (mat_vec_checked K a)
  end.

End KernelRidgeRegression.

(** ** class KernelLogisticRegression *)

Module KernelLogisticRegression.

Record t := mk {
  Kernel : kernel_func;
  Alpha : option vec;
  Data : option loc;
  Lambda : R;
  tol : R;
  max_iter : Z;
  threshold : R
}.

Definition set_Alpha (a : option vec) (s : t) : t :=
  mk (Kernel s) a (Data s) (Lambda s) (tol s) (max_iter s) (threshold s).
Definition set_Data (d : option loc) (s : t) : t :=
  mk (Kernel s) (Alpha s) d (Lambda s) (tol s) (max_iter s) (threshold s).

(** [__init__]: stores the arguments and prints a banner. *)
Definition init (kernel_func : kernel_func) (Lambda tol : R) (max_iter : Z)
    (threshold : R) : (exc + t) * list event :=
  (inr (mk kernel_func None None Lambda tol max_iter threshold),
   [Banner "Kernel Logistic Regression"]).

Definition reset : M t unit :=
  modify (set_Alpha None) ;;
  modify (set_Data None).

(** [loss(s)]: the diagonal matrices of the first and second derivatives
    of the logistic loss. *)
Definition loss (s : vec) : mat * mat :=
  let l1 := map (fun si => (-1) / (1 + exp si)) s in
  let l2 := map (fun si => exp si / (1 + exp si) ^ 2) s in
  (diag l1, diag l2).

(** The body of the [for] loop of [train] up to [np.linalg.solve]:
    the new coefficient vector computed from [alpha_old]. *)
(** [m = K @ alpha_old] raises [ValueError] unless every row of [K] has
    one entry per entry of [alpha_old].  With [y] of shape [(len y, 1)]
    and [m] of shape [(N, 1)], the products [y*m], [W @ m] and [P @ y]
    all go through only when [len y = N]: otherwise [y*m] does not
    broadcast, or it broadcasts to a length that [W @ m] or [P @ y]
    rejects; each of these raises [ValueError]. *)
Definition newton_step (K : mat) (y : vec) (Lambda : R) (n : nat) (alpha_old : vec)
    : exc + vec :=
  match mat_vec_checked K alpha_old with
  | inl e => inl e
  | inr m =>
      if negb (Nat.eqb (length y) (length m)) then inl ValueError
      else
        let '(P, W) := loss (vmul y m) in
        let z := vsub (mat_vec W m) (mat_vec P y) in
        solve (madd (mat_mul W K) (scale (Lambda * INR n) (eye n))) z
  end.

(** [for step in range(self.max_iter): ...] with [fuel] iterations left,
    [step] the index of the current one and [last] the values of
    [(step, error, alpha_new)] left by the previous one.  The result is
    the value of [(step, error, alpha_new)] after the loop, [None] when
    the body never ran (the three variables are then unbound). *)
Fixpoint irls_loop (K : mat) (y : vec) (Lambda tol : R) (n : nat) (step fuel : nat)
    (alpha_old : vec) (last : option (nat * R * vec)) : exc + option (nat * R * vec) :=
  match fuel with
  | O => inr last
  | S fuel' =>
      match newton_step K y Lambda n alpha_old with
      | inl e => inl e
      | inr alpha_new =>
          let error := norm (vsub alpha_new alpha_old) in
          if Rlt_dec error tol then inr (Some (step, error, alpha_new))
          else irls_loop K y Lambda tol n (S step) fuel' alpha_new
                 (Some (step, error, alpha_new))
      end
  end.

(** the sentinel check after the loop *)
Definition not_converged (max_iter : Z) (tol : R) (step : nat) (error : R) : bool :=
  andb (Z.eqb (Z.of_nat step) (max_iter - 1)%Z)
       (if Rgt_dec error tol then true else false).

Definition train (H : heap) (X : loc) (y : vec) : M t unit :=
  modify (set_Data (Some X)) ;;
  self <- get ;;
  let K := kernel_arr (Kernel self) (H X) (H X) in
  let n := length K in
  let alpha_old := zeros n in
  res <- lift (irls_loop K y (Lambda self) (tol self) n 0 (Z.to_nat (max_iter self))
                 alpha_old None) ;;
  match res with
  | None => lift (inl UnboundLocalError)
  | Some (step, error, alpha_new) =>
      (if not_converged (max_iter self) (tol self) step error
       then print (NotConverged (max_iter self)) else ret tt) ;;
      modify (set_Alpha (Some alpha_new))
  end.

Definition predict (H : heap) (X : mat) : M t (list Z) :=
  self <- get ;;
  K <- lift (apply_kernel (Kernel self) X (option_map H (Data self))) ;;
  f <- match Alpha self with
       | None => lift (inl ValueError)
       | Some a => lift (mat_vec_checked K a)
       end ;;
  let p := map (fun fi => 1 / (1 + exp (- fi))) f in
  let y := map (fun pi => if Rgt_dec pi (threshold self) then 1%Z else 0%Z) p in
  ret (map (fun yi => 2 * yi - 1)%Z y).

End KernelLogisticRegression.

Module KRR := KernelRidgeRegression.
Module KLR := KernelLogisticRegression.

(** [2 * (p > threshold) - 1] on one row of [predict] *)
Definition klr_label (threshold fi : R) : Z :=
  (2 * (if Rgt_dec (1 / (1 + exp (- fi))) threshold then 1 else 0) - 1)%Z.

(** [K + Lambda * n * I], the matrix [KernelRidgeRegression.train] hands
    to [np.linalg.solve] *)
Definition krr_system (s : KRR.t) (K : mat) : mat :=
  madd K (scale (KRR.Lambda s * INR (length K)) (eye (length K))).

(** * The spec's description of the algorithms

    Section 4.3 of the spec, read literally; compared below with the
    definitions translated from the source. *)

(** first and second derivative of the logistic loss at [s] *)
Definition spec_l1 (s : R) : R := - (1 / (1 + exp s)).
Definition spec_l2 (s : R) : R := exp s / Rsqr (1 + exp s).

(** one Newton step: [Alpha_{t+1}] solves [(W K + Lambda n I) Alpha_{t+1} = z]
    with [m = K Alpha_t], [s = y * m], [P = diag(l1(s))], [W = diag(l2(s))]
    and [z = W m - P y] *)
Definition newton_update (K : mat) (y : vec) (Lambda : R) (a a' : vec) : Prop :=
  let n := length K in
  let m := mat_vec K a in
  let s := vmul y m in
  let P := diag (map spec_l1 s) in
  let W := diag (map spec_l2 s) in
  let z := vsub (mat_vec W m) (mat_vec P y) in
  mat_vec (madd (mat_mul W K) (scale (Lambda * INR n) (eye n))) a' = z.

(** [irls_run K y Lambda tol budget a r]: started from [a] with [budget]
    iterations allowed, the iteration accepts [r].  It stops at the first
    step whose change [‖Alpha_{t+1} - Alpha_t‖] is below [tol], and
    otherwise at the last allowed step. *)
Inductive irls_run (K : mat) (y : vec) (Lambda tol : R) : nat -> vec -> vec -> Prop :=
| irls_converged : forall budget a a',
    newton_update K y Lambda a a' -> norm (vsub a' a) < tol ->
    irls_run K y Lambda tol (S budget) a a'
| irls_exhausted : forall a a',
    newton_update K y Lambda a a' -> tol <= norm (vsub a' a) ->
    irls_run K y Lambda tol 1 a a'
| irls_continue : forall budget a a' r,
    newton_update K y Lambda a a' -> tol <= norm (vsub a' a) ->
    irls_run K y Lambda tol budget a' r ->
    irls_run K y Lambda tol (S budget) a r.

(** [+1] where [sigmoid(f) > threshold], else [-1] *)
Definition spec_label (threshold f : R) : Z :=
  if Rgt_dec (1 / (1 + exp (- f))) threshold then 1%Z else (-1)%Z.

(** * Concrete inputs *)

(** every location holds the same array *)
Definition const_heap (M : mat) : heap := fun _ => M.

Definition krr_linear (Lambda : R) : KRR.t := KRR.mk linear_kernel None None Lambda.

(** [KernelLogisticRegression(linear, Lambda=0.125, tol=4.0, max_iter=1)] *)
Definition klr_example : KLR.t := KLR.mk linear_kernel None None (1/8) 4 1 (1/2).

(** a trained logistic estimator: [Alpha = [0]], [Data] at location 0 *)
Definition klr_trained : KLR.t := KLR.mk linear_kernel (Some [0]) (Some 0%nat) 1 1 1 (1/2).

(** * Lemmas *)

(** ** [np.linalg.solve] *)

Lemma solve_sound (A : mat) (b x : vec) :
  solve A b = inr x -> length x = length A /\ mat_vec A x = b.
Proof.
  unfold solve. destruct (negb (square A)); [discriminate |].
  destruct (Nat.eq_dec (length b) (length A)) as [Hb |]; [| discriminate].
  destruct (excluded_middle_informative (uniquely_solvable A)) as [HA |]; [| discriminate].
  intros Heq. injection Heq as <-.
  destruct (constructive_definite_description _ _) as [x' Hx']. exact Hx'.
Qed.

Lemma solve_unique (A : mat) (b x : vec) :
  square A = true -> length b = length A -> uniquely_solvable A ->
  length x = length A -> mat_vec A x = b -> solve A b = inr x.
Proof.
  intros Hsq Hb HA Hx Hax. unfold solve. rewrite Hsq. simpl.
  destruct (Nat.eq_dec (length b) (length A)) as [Hb' |]; [| contradiction].
  destruct (excluded_middle_informative (uniquely_solvable A)) as [HA' |]; [| contradiction].
  f_equal.
  destruct (constructive_definite_description _ _) as [x' Hx']. simpl.
  destruct (HA' b Hb') as [x0 [_ Huniq]].
  transitivity x0; [symmetry |]; apply Huniq; auto.
Qed.

Lemma solve_singular (A : mat) (b : vec) :
  square A = true -> length b = length A -> ~ uniquely_solvable A ->
  solve A b = inl LinAlgError.
Proof.
  intros Hsq Hb HA. unfold solve. rewrite Hsq. simpl.
  destruct (Nat.eq_dec (length b) (length A)) as [Hb' |]; [| contradiction].
  destruct (excluded_middle_informative (uniquely_solvable A)); [contradiction | reflexivity].
Qed.

Lemma uniquely_solvable_1x1 (a : R) : a <> 0 -> uniquely_solvable [[a]].
Proof.
  intros Ha b Hb. destruct b as [| b0 [| ? ?]]; try discriminate.
  exists [b0 / a]. split.
  - split; [reflexivity |]. cbn. f_equal. field. exact Ha.
  - intros x [Hx Hax]. destruct x as [| x0 [| ? ?]]; try discriminate.
    cbn in Hax. injection Hax as Hax. f_equal. rewrite <- Hax. field. exact Ha.
Qed.

Lemma not_uniquely_solvable_zero : ~ uniquely_solvable [[0]].
Proof.
  intros HA. destruct (HA [1] eq_refl) as [x [[Hx Hax] _]].
  destruct x as [| x0 [| ? ?]]; try discriminate.
  cbn in Hax. injection Hax as Hax. lra.
Qed.

(** ** Shapes *)

Lemma length_zip_with {A B C} (f : A -> B -> C) l1 l2 :
  length (zip_with f l1 l2) = Nat.min (length l1) (length l2).
Proof.
  revert l2; induction l1 as [| a l1 IH]; intros [| b l2]; simpl; auto.
Qed.

Lemma square_forall (K : mat) :
  square K = true -> Forall (fun r => length r = length K) K.
Proof.
  unfold square. rewrite forallb_forall, Forall_forall.
  intros Hf r Hr. apply Nat.eqb_eq, Hf, Hr.
Qed.

Lemma eye_rows (n : nat) : length (eye n) = n /\ Forall (fun r => length r = n) (eye n).
Proof.
  unfold eye. rewrite length_map, length_seq. split; [reflexivity |].
  apply Forall_map, Forall_forall. intros i _. rewrite length_map, length_seq. reflexivity.
Qed.

(** [K + 0 * M] is [K] for [M] of the same shape. *)
Lemma madd_scale_0 (K N : mat) (n : nat) :
  length K = length N ->
  Forall (fun r => length r = n) K -> Forall (fun r => length r = n) N ->
  madd K (scale 0 N) = K.
Proof.
  revert N; induction K as [| r K IH]; intros [| s N] Hl HK HN; try discriminate; [reflexivity |].
  inversion HK as [| ? ? Hr HK']; inversion HN as [| ? ? Hs HN']; subst.
  change (vadd r (map (Rmult 0) s) :: madd K (scale 0 N) = r :: K). f_equal.
  - clear - Hs. unfold vadd. revert s Hs; induction r as [| x r IHr]; intros [| y s] Hs;
      try discriminate; [reflexivity |].
    simpl. f_equal; [ring | apply IHr; simpl in Hs; lia].
  - apply IH; auto.
Qed.

(** ** The methods, run to the end *)

Lemma krr_train_eq (H : heap) (X : loc) (y : vec) (s : KRR.t) :
  KRR.train H X y s =
  let s1 := KRR.set_Data (Some X) s in
  let K := kernel_arr (KRR.Kernel s) (H X) (H X) in
  match solve (madd K (scale (KRR.Lambda s * INR (length K)) (eye (length K)))) y with
  | inl e => (inl e, s1, [])
  | inr a => (inr tt, KRR.set_Alpha (Some a) s1, [])
  end.
Proof.
  unfold KRR.train, bind, modify, get, lift. simpl.
  destruct (solve _ _); reflexivity.
Qed.

Lemma krr_predict_eq (H : heap) (Xn : mat) (s : KRR.t) :
  KRR.predict H Xn s =
  (match apply_kernel (KRR.Kernel s) Xn (option_map H (KRR.Data s)) with
   | inl e => inl e
   | inr K => match KRR.Alpha s with
              | None => inl ValueError
              | Some a => mat_vec_checked K a
              end
   end, s, []).
Proof.
  unfold KRR.predict, bind, get, lift. simpl.
  destruct (apply_kernel _ _ _); [reflexivity |].
  destruct (KRR.Alpha s); reflexivity.
Qed.

Lemma krr_reset_eq (s : KRR.t) :
  KRR.reset s = (inr tt, KRR.mk (KRR.Kernel s) None None (KRR.Lambda s), []).
Proof. reflexivity. Qed.

Lemma klr_train_eq (H : heap) (X : loc) (y : vec) (s : KLR.t) :
  KLR.train H X y s =
  let s1 := KLR.set_Data (Some X) s in
  let K := kernel_arr (KLR.Kernel s) (H X) (H X) in
  match KLR.irls_loop K y (KLR.Lambda s) (KLR.tol s) (length K) 0
          (Z.to_nat (KLR.max_iter s)) (zeros (length K)) None with
  | inl e => (inl e, s1, [])
  | inr None => (inl UnboundLocalError, s1, [])
  | inr (Some (step, error, a)) =>
      (inr tt, KLR.set_Alpha (Some a) s1,
       if KLR.not_converged (KLR.max_iter s) (KLR.tol s) step error
       then [NotConverged (KLR.max_iter s)] else [])
  end.
Proof.
  unfold KLR.train, bind, modify, get, lift. simpl.
  destruct (KLR.irls_loop _ _ _ _ _ _ _ _ _) as [e | [[[step error] a] |]]; try reflexivity.
  destruct (KLR.not_converged _ _ _ _); reflexivity.
Qed.

Lemma klr_predict_eq (H : heap) (Xn : mat) (s : KLR.t) :
  KLR.predict H Xn s =
  (match apply_kernel (KLR.Kernel s) Xn (option_map H (KLR.Data s)) with
   | inl e => inl e
   | inr K => match KLR.Alpha s with
              | None => inl ValueError
              | Some a => match mat_vec_checked K a with
                          | inl e => inl e
                          | inr f => inr (map (klr_label (KLR.threshold s)) f)
                          end
              end
   end, s, []).
Proof.
  unfold KLR.predict, bind, get, lift, ret. simpl.
  destruct (apply_kernel _ _ _); [reflexivity |].
  destruct (KLR.Alpha s); [| reflexivity].
  destruct (mat_vec_checked _ _) as [e | f]; [reflexivity |].
  simpl. rewrite !map_map. reflexivity.
Qed.

Lemma klr_reset_eq (s : KLR.t) :
  KLR.reset s = (inr tt, KLR.mk (KLR.Kernel s) None None (KLR.Lambda s) (KLR.tol s)
                            (KLR.max_iter s) (KLR.threshold s), []).
Proof. reflexivity. Qed.

(** ** One-by-one systems *)

Lemma solve_1x1 (a b : R) : a <> 0 -> solve [[a]] [b] = inr [b / a].
Proof.
  intros Ha. apply solve_unique; try reflexivity.
  - apply uniquely_solvable_1x1, Ha.
  - cbn. f_equal. field. exact Ha.
Qed.

Lemma solve_1x1_zero (a b : R) : a = 0 -> solve [[a]] [b] = inl LinAlgError.
Proof.
  intros ->. apply solve_singular; try reflexivity. apply not_uniquely_solvable_zero.
Qed.

Lemma linear_kernel_1x1 (u v : R) : kernel_arr linear_kernel [[u]] [[v]] = [[u * v]].
Proof. cbn. rewrite Rplus_0_r. reflexivity. Qed.

(** training the ridge estimator on the single example [x = [c]], [y = [b]] *)
Lemma krr_train_1x1 (Lambda c b : R) (X : loc) (H : heap) :
  H X = [[c]] -> c * c + Lambda <> 0 ->
  KRR.train H X [b] (krr_linear Lambda) =
  (inr tt, KRR.mk linear_kernel (Some [b / (c * c + Lambda)]) (Some X) Lambda, []).
Proof.
  intros HX Hd. rewrite krr_train_eq. cbv zeta. cbn [krr_linear KRR.Kernel KRR.Lambda].
  rewrite HX, linear_kernel_1x1. cbn -[solve].
  rewrite solve_1x1 by (rewrite !Rmult_1_r; lra).
  rewrite !Rmult_1_r. reflexivity.
Qed.

Lemma krr_train_1x1_singular (Lambda c b : R) (X : loc) (H : heap) (s : KRR.t) :
  KRR.Kernel s = linear_kernel -> KRR.Lambda s = Lambda ->
  H X = [[c]] -> c * c + Lambda = 0 ->
  KRR.train H X [b] s = (inl LinAlgError, KRR.set_Data (Some X) s, []).
Proof.
  intros Hk HL HX Hd. rewrite krr_train_eq. cbv zeta. rewrite Hk, HL, HX, linear_kernel_1x1.
  cbn -[solve]. rewrite solve_1x1_zero by (rewrite !Rmult_1_r; exact Hd). reflexivity.
Qed.

Lemma klr_label_spec (threshold fi : R) : klr_label threshold fi = spec_label threshold fi.
Proof. unfold klr_label, spec_label. destruct (Rgt_dec _ _); reflexivity. Qed.

(** * Claims *)

(** ** Kernel Ridge Regression *)

(** C2: after a successful [KernelRidgeRegression.train(X, y)] the stored
    [Alpha] solves [(K + Lambda n I) Alpha = y] with [K = Kernel(X, X)] and
    [n] the number of rows of [X], and the stored [Data] is [X].  The
    kernel is assumed to return an [n]-row matrix on [(X, X)], as its
    contract says. *)
Theorem krr_train_solves_system (H : heap) (X : loc) (y : vec) (s s' : KRR.t)
    (out : list event) :
  length (kernel_arr (KRR.Kernel s) (H X) (H X)) = length (H X) ->
  KRR.train H X y s = (inr tt, s', out) ->
  KRR.Data s' = Some X /\
  exists a, KRR.Alpha s' = Some a /\
    mat_vec (madd (kernel_arr (KRR.Kernel s) (H X) (H X))
                  (scale (KRR.Lambda s * INR (length (H X))) (eye (length (H X))))) a = y.
Proof.
  intros Hn Htr. rewrite krr_train_eq in Htr. cbv zeta in Htr. rewrite Hn in Htr.
  destruct (solve _ _) as [e | a] eqn:Hs; [discriminate |].
  injection Htr as <- <-. split; [reflexivity |].
  exists a. split; [reflexivity |]. apply (solve_sound _ _ _ Hs).
Qed.

Lemma krr_train_solves_system_witness :
  exists s', KRR.train (const_heap [[1]]) 0%nat [1] (krr_linear 0) = (inr tt, s', []) /\
    (KRR.Data s' = Some 0%nat /\
     exists a, KRR.Alpha s' = Some a /\
       mat_vec (madd (kernel_arr linear_kernel [[1]] [[1]]) (scale (0 * INR 1) (eye 1))) a
       = [1]).
Proof.
  assert (Htr := krr_train_1x1 0 1 1 0%nat (const_heap [[1]]) eq_refl ltac:(lra)).
  eexists. split; [exact Htr |].
  exact (krr_train_solves_system (const_heap [[1]]) 0%nat [1] (krr_linear 0) _ [] eq_refl Htr).
Defined.

(** C7: with [Lambda = 0] and an invertible Gram matrix [K = Kernel(X, X)],
    [train(X, y)] succeeds, its [Alpha] solves [K Alpha = y], and
    [predict(X)] on the training data returns [K Alpha = y]. *)
Theorem krr_lambda0_round_trip (H : heap) (X : loc) (y : vec) (s : KRR.t) :
  KRR.Lambda s = 0 ->
  square (kernel_arr (KRR.Kernel s) (H X) (H X)) = true ->
  uniquely_solvable (kernel_arr (KRR.Kernel s) (H X) (H X)) ->
  length y = length (kernel_arr (KRR.Kernel s) (H X) (H X)) ->
  exists s' a,
    KRR.train H X y s = (inr tt, s', []) /\ KRR.Alpha s' = Some a /\
    mat_vec (kernel_arr (KRR.Kernel s) (H X) (H X)) a = y /\
    KRR.predict H (H X) s' = (inr y, s', []).
Proof.
  intros HL Hsq HK Hy.
  set (K := kernel_arr (KRR.Kernel s) (H X) (H X)) in *.
  destruct (HK y Hy) as [a [[Ha HKa] _]].
  assert (HA : madd K (scale (KRR.Lambda s * INR (length K)) (eye (length K))) = K).
  { rewrite HL, Rmult_0_l. destruct (eye_rows (length K)) as [Hl Hr].
    apply (madd_scale_0 _ _ (length K)); auto. apply square_forall; auto. }
  exists (KRR.set_Alpha (Some a) (KRR.set_Data (Some X) s)), a.
  rewrite krr_train_eq. cbv zeta. fold K. rewrite HA, (solve_unique K y a) by auto.
  split; [reflexivity |]. split; [reflexivity |]. split; [exact HKa |].
  rewrite krr_predict_eq. cbn [KRR.set_Alpha KRR.set_Data KRR.Kernel KRR.Data KRR.Alpha
                               option_map apply_kernel].
  fold K. unfold mat_vec_checked.
  replace (forallb _ K) with true; [rewrite HKa; reflexivity |].
  symmetry. apply forallb_forall. intros r Hr. apply Nat.eqb_eq. rewrite Ha.
  exact (proj1 (Forall_forall _ _) (square_forall K Hsq) r Hr).
Qed.

Lemma krr_lambda0_round_trip_witness :
  exists s' a,
    KRR.train (const_heap [[1]]) 0%nat [1] (krr_linear 0) = (inr tt, s', []) /\
    KRR.Alpha s' = Some a /\
    mat_vec (kernel_arr linear_kernel [[1]] [[1]]) a = [1] /\
    KRR.predict (const_heap [[1]]) [[1]] s' = (inr [1], s', []).
Proof.
  apply (krr_lambda0_round_trip (const_heap [[1]]) 0%nat [1] (krr_linear 0)).
  - reflexivity.
  - change (square (kernel_arr linear_kernel [[1]] [[1]]) = true).
    rewrite linear_kernel_1x1. reflexivity.
  - change (uniquely_solvable (kernel_arr linear_kernel [[1]] [[1]])).
    rewrite linear_kernel_1x1. apply uniquely_solvable_1x1. lra.
  - reflexivity.
Defined.

(** ** The Newton iteration of Kernel Logistic Regression *)

Lemma loss_spec (s : vec) :
  KLR.loss s = (diag (map spec_l1 s), diag (map spec_l2 s)).
Proof.
  unfold KLR.loss. f_equal; f_equal; apply map_ext; intros a.
  - unfold spec_l1, Rdiv. ring.
  - unfold spec_l2. f_equal. unfold Rsqr. ring.
Qed.

Lemma mat_vec_checked_inr (K : mat) (a m : vec) :
  mat_vec_checked K a = inr m -> m = mat_vec K a.
Proof. unfold mat_vec_checked. destruct (forallb _ _); congruence. Qed.

Lemma mat_vec_checked_inl (K : mat) (a : vec) (e : exc) :
  mat_vec_checked K a = inl e -> e = ValueError.
Proof. unfold mat_vec_checked. destruct (forallb _ _); congruence. Qed.

Lemma newton_step_update (K : mat) (y : vec) (Lambda : R) (a a' : vec) :
  KLR.newton_step K y Lambda (length K) a = inr a' -> newton_update K y Lambda a a'.
Proof.
  unfold KLR.newton_step. destruct (mat_vec_checked K a) as [e | m] eqn:Hm; [discriminate |].
  apply mat_vec_checked_inr in Hm. subst m.
  destruct (negb _); [discriminate |]. rewrite loss_spec. cbv beta iota zeta.
  intros Hs. apply (solve_sound _ _ _ Hs).
Qed.

Lemma irls_loop_S (K : mat) (y : vec) (Lambda tol : R) (n step fuel : nat) (a : vec)
    (last : option (nat * R * vec)) :
  KLR.irls_loop K y Lambda tol n step (S fuel) a last =
  match KLR.newton_step K y Lambda n a with
  | inl e => inl e
  | inr a' =>
      if Rlt_dec (norm (vsub a' a)) tol then inr (Some (step, norm (vsub a' a), a'))
      else KLR.irls_loop K y Lambda tol n (S step) fuel a' (Some (step, norm (vsub a' a), a'))
  end.
Proof. reflexivity. Qed.

(** labels whose length is not the number of rows of [K]: the first
    iteration raises [ValueError] *)
Lemma klr_train_wrong_labels (H : heap) (X : loc) (y : vec) (s : KLR.t) :
  (1 <= KLR.max_iter s)%Z ->
  length y <> length (kernel_arr (KLR.Kernel s) (H X) (H X)) ->
  KLR.train H X y s = (inl ValueError, KLR.set_Data (Some X) s, []).
Proof.
  intros Hm Hy. rewrite klr_train_eq. cbv zeta.
  replace (Z.to_nat (KLR.max_iter s)) with (S (Z.to_nat (KLR.max_iter s) - 1)) by lia.
  rewrite irls_loop_S. unfold KLR.newton_step.
  set (K := kernel_arr (KLR.Kernel s) (H X) (H X)) in *.
  destruct (mat_vec_checked K (zeros (length K))) as [e | m] eqn:Hmv.
  - rewrite (mat_vec_checked_inl _ _ _ Hmv). reflexivity.
  - apply mat_vec_checked_inr in Hmv.
    assert (Hl : length m = length K) by (rewrite Hmv; unfold mat_vec; apply length_map).
    rewrite Hl. destruct (Nat.eqb_spec (length y) (length K)); [contradiction | reflexivity].
Qed.

Lemma irls_loop_run (K : mat) (y : vec) (Lambda tol : R) (fuel step : nat) (a : vec)
    (last : option (nat * R * vec)) (r : nat * R * vec) :
  KLR.irls_loop K y Lambda tol (length K) step (S fuel) a last = inr (Some r) ->
  irls_run K y Lambda tol (S fuel) a (snd r).
Proof.
  revert step a last. induction fuel as [| fuel IH]; intros step a last Hl;
    rewrite irls_loop_S in Hl;
    destruct (KLR.newton_step K y Lambda (length K) a) as [e | a'] eqn:Hs;
    try discriminate; apply newton_step_update in Hs;
    destruct (Rlt_dec (norm (vsub a' a)) tol) as [Hlt | Hge].
  - injection Hl as <-. apply irls_converged; assumption.
  - cbn in Hl. injection Hl as <-. apply irls_exhausted; [assumption | apply Rnot_lt_le, Hge].
  - injection Hl as <-. apply irls_converged; assumption.
  - apply irls_continue with a'; [assumption | apply Rnot_lt_le, Hge |].
    apply (IH _ _ _ Hl).
Qed.

(** C1: a successful [KernelLogisticRegression.train(X, y)] stores [X] as
    [Data] and, as [Alpha], the coefficient vector accepted by the Newton
    iteration of the spec: started from [Alpha_0 = 0] of length [n], each
    step solves [(W K + Lambda n I) Alpha_{t+1} = z] with [m = K Alpha_t],
    [l1 = -1/(1+exp s)], [l2 = exp s/(1+exp s)^2] at [s = y * m],
    [P = diag(l1)], [W = diag(l2)], [z = W m - P y]; the iteration stops at
    the first step with [‖Alpha_{t+1} - Alpha_t‖ < tol] and otherwise runs
    [max_iter] steps.  (The labels need not be in {-1, +1} for this.) *)
Theorem klr_train_irls (H : heap) (X : loc) (y : vec) (s s' : KLR.t) (out : list event) :
  KLR.train H X y s = (inr tt, s', out) ->
  exists a, KLR.Data s' = Some X /\ KLR.Alpha s' = Some a /\
    irls_run (kernel_arr (KLR.Kernel s) (H X) (H X)) y (KLR.Lambda s) (KLR.tol s)
             (Z.to_nat (KLR.max_iter s))
             (zeros (length (kernel_arr (KLR.Kernel s) (H X) (H X)))) a.
Proof.
  intros Htr. rewrite klr_train_eq in Htr. cbv zeta in Htr.
  destruct (Z.to_nat (KLR.max_iter s)) as [| fuel] eqn:Hfuel;
    [cbn [KLR.irls_loop] in Htr; discriminate |].
  destruct (KLR.irls_loop _ _ _ _ _ _ _ _ _) as [e | [[[step error] a] |]] eqn:Hl;
    try discriminate.
  injection Htr as <- _. exists a. split; [reflexivity |]. split; [reflexivity |].
  apply (irls_loop_run _ _ _ _ _ _ _ _ _ Hl).
Qed.

(** ** A concrete run of Kernel Logistic Regression *)

Lemma norm_1 (v : R) : norm [v] = Rabs v.
Proof. unfold norm. cbn. rewrite Rplus_0_r. exact (sqrt_Rsqr_abs v). Qed.

Lemma spec_l1_0 : spec_l1 0 = - (1 / 2).
Proof. unfold spec_l1. rewrite exp_0. field. Qed.

Lemma spec_l2_0 : spec_l2 0 = 1 / 4.
Proof. unfold spec_l2. rewrite exp_0. unfold Rsqr. field. Qed.

(** with the Gram matrix [[0]] the margin is always [0] *)
Lemma newton_step_zero_kernel (b Lambda a0 : R) : Lambda <> 0 ->
  KLR.newton_step [[0]] [b] Lambda 1 [a0] = inr [b / (2 * Lambda)].
Proof.
  intros HL. unfold KLR.newton_step. cbn -[solve exp KLR.loss]. rewrite loss_spec.
  cbn -[solve exp].
  replace (b * (0 * a0 + 0)) with 0 by ring. rewrite spec_l1_0, spec_l2_0.
  rewrite solve_1x1 by lra. f_equal. f_equal. field. exact HL.
Qed.

(** [train] of [KernelLogisticRegression(linear, Lambda=0.125, tol=4.0,
    max_iter=1)] on [X = [[0]]], [y = [[1]]]: its only iteration moves
    [Alpha] from [0] to [4], a change of exactly [tol]. *)
Lemma klr_example_loop :
  KLR.irls_loop [[0]] [1] (1 / 8) 4 1 0 1 [0] None = inr (Some (0%nat, 4, [4])).
Proof.
  rewrite irls_loop_S. rewrite newton_step_zero_kernel by lra.
  replace (1 / (2 * (1 / 8))) with 4 by field.
  cbn [vsub zip_with]. replace (4 - 0) with 4 by ring. rewrite norm_1, Rabs_right by lra.
  destruct (Rlt_dec 4 4) as [Hlt | _]; [lra | reflexivity].
Qed.

Lemma klr_example_train :
  KLR.train (const_heap [[0]]) 0%nat [1] klr_example =
  (inr tt, KLR.mk linear_kernel (Some [4]) (Some 0%nat) (1 / 8) 4 1 (1 / 2), []).
Proof.
  rewrite klr_train_eq. cbv zeta. unfold const_heap.
  cbn [klr_example KLR.Kernel KLR.Lambda KLR.tol KLR.max_iter].
  rewrite linear_kernel_1x1, Rmult_0_l.
  change (Z.to_nat 1) with 1%nat. change (zeros (length [[0]])) with [0].
  change (length [[0]]) with 1%nat. rewrite klr_example_loop.
  unfold KLR.not_converged. cbn [Z.of_nat Z.eqb Z.sub andb].
  destruct (Rgt_dec 4 4) as [Hgt | _]; [lra |]. reflexivity.
Qed.

Lemma klr_train_irls_witness :
  exists a,
    KLR.Data (KLR.mk linear_kernel (Some [4]) (Some 0%nat) (1 / 8) 4 1 (1 / 2)) = Some 0%nat /\
    KLR.Alpha (KLR.mk linear_kernel (Some [4]) (Some 0%nat) (1 / 8) 4 1 (1 / 2)) = Some a /\
    irls_run (kernel_arr linear_kernel [[0]] [[0]]) [1] (1 / 8) 4 1
             (zeros (length (kernel_arr linear_kernel [[0]] [[0]]))) a.
Proof.
  exact (klr_train_irls (const_heap [[0]]) 0%nat [1] klr_example _ [] klr_example_train).
Defined.

(** C3 (defect): on [X = [[0]]], [y = [[1]]] with a linear kernel,
    [Lambda = 0.125], [tol = 4.0] and [max_iter = 1], the only iteration
    has [error = 4.0 = tol], so no iteration satisfied [error < tol]; yet
    [train] prints no convergence warning, because the check after the
    loop asks [error > tol].  The last [Alpha] is stored. *)
Theorem klr_error_equal_tol_no_warning :
  KLR.irls_loop (kernel_arr linear_kernel [[0]] [[0]]) [1] (1 / 8) 4 1 0 1 [0] None
    = inr (Some (0%nat, 4, [4])) /\
  ~ (4 < KLR.tol klr_example) /\
  KLR.train (const_heap [[0]]) 0%nat [1] klr_example =
    (inr tt, KLR.mk linear_kernel (Some [4]) (Some 0%nat) (1 / 8) 4 1 (1 / 2), []).
Proof.
  split; [| split].
  - rewrite linear_kernel_1x1, Rmult_0_l. exact klr_example_loop.
  - cbn. lra.
  - exact klr_example_train.
Qed.

(** C4: for a trained [KernelLogisticRegression] and an input whose Gram
    matrix against [Data] has the shape of [Alpha], [predict] returns, per
    row of [f = Kernel(X_new, Data) Alpha], [+1] where
    [1 / (1 + exp (-f)) > threshold] and [-1] otherwise, and changes
    nothing; every label that [predict] ever returns is [+1] or [-1]. *)
Theorem klr_predict_labels (H : heap) (Xn : mat) (s : KLR.t) (d : loc) (a : vec) :
  KLR.Data s = Some d -> KLR.Alpha s = Some a ->
  forallb (fun r => Nat.eqb (length r) (length a)) (kernel_arr (KLR.Kernel s) Xn (H d)) = true ->
  KLR.predict H Xn s =
    (inr (map (spec_label (KLR.threshold s)) (mat_vec (kernel_arr (KLR.Kernel s) Xn (H d)) a)),
     s, []) /\
  (forall (H' : heap) (Xn' : mat) (s0 s0' : KLR.t) out o,
     KLR.predict H' Xn' s0 = (inr out, s0', o) ->
     Forall (fun v => v = 1%Z \/ v = (-1)%Z) out).
Proof.
  intros HD HA Hsh. split.
  - rewrite klr_predict_eq, HD, HA. cbn [option_map apply_kernel].
    unfold mat_vec_checked. rewrite Hsh.
    rewrite (map_ext (klr_label (KLR.threshold s)) (spec_label (KLR.threshold s)))
      by apply klr_label_spec.
    reflexivity.
  - intros H' Xn' s0 s0' out o Hp. rewrite klr_predict_eq in Hp.
    destruct (apply_kernel _ _ _) as [e | K]; [discriminate |].
    destruct (KLR.Alpha s0) as [a0 |]; [| discriminate].
    destruct (mat_vec_checked K a0) as [e | f]; [discriminate |].
    injection Hp as <- _ _. apply Forall_map, Forall_forall. intros fi _.
    unfold klr_label. destruct (Rgt_dec _ _); [left | right]; reflexivity.
Qed.

Lemma klr_predict_labels_witness :
  KLR.predict (const_heap [[1]]) [[1]] (KLR.mk linear_kernel (Some [0]) (Some 0%nat) 1 1 1 (1 / 2))
  = (inr (map (spec_label (1 / 2)) (mat_vec (kernel_arr linear_kernel [[1]] [[1]]) [0])),
     KLR.mk linear_kernel (Some [0]) (Some 0%nat) 1 1 1 (1 / 2), []) /\
  Forall (fun v => v = 1%Z \/ v = (-1)%Z)
    (map (spec_label (1 / 2)) (mat_vec (kernel_arr linear_kernel [[1]] [[1]]) [0])).
Proof.
  destruct (klr_predict_labels (const_heap [[1]]) [[1]]
              (KLR.mk linear_kernel (Some [0]) (Some 0%nat) 1 1 1 (1 / 2)) 0%nat [0]
              eq_refl eq_refl eq_refl) as [Hp Hall].
  split; [exact Hp | exact (Hall _ _ _ _ _ _ Hp)].
Defined.

(** ** Untrained estimators *)



(** ** Failed training *)

(** C6 (as the code does it): a [train] that raises (on a singular
    system, on labels of the wrong length, ...) has already replaced
    [Data] by the new [X] (the assignment [self.Data = X] comes first);
    everything else, [Alpha] included, is left as it was. *)
Theorem failed_train_replaces_only_data :
  (forall H X y s e s' o, KRR.train H X y s = (inl e, s', o) -> s' = KRR.set_Data (Some X) s) /\
  (forall H X y s e s' o, KLR.train H X y s = (inl e, s', o) -> s' = KLR.set_Data (Some X) s).
Proof.
  split.
  - intros H X y s e s' o Htr. rewrite krr_train_eq in Htr. cbv zeta in Htr.
    destruct (solve _ _); [injection Htr as _ <- _; reflexivity | discriminate].
  - intros H X y s e s' o Htr. rewrite klr_train_eq in Htr. cbv zeta in Htr.
    destruct (KLR.irls_loop _ _ _ _ _ _ _ _ _) as [e' | [[[step error] a] |]];
      try (injection Htr as _ <- _; reflexivity); discriminate.
Qed.

Lemma failed_train_replaces_only_data_witness :
  KRR.train (heap_upd (const_heap [[1]]) 0%nat [[0]]) 0%nat [1]
     (KRR.mk linear_kernel (Some [1]) (Some 1%nat) 0)
   = (inl LinAlgError, KRR.mk linear_kernel (Some [1]) (Some 0%nat) 0, []) /\
  KRR.mk linear_kernel (Some [1]) (Some 0%nat) 0
   = KRR.set_Data (Some 0%nat) (KRR.mk linear_kernel (Some [1]) (Some 1%nat) 0) /\
  KLR.train (const_heap [[1]]) 0%nat [1; 1] (KLR.mk linear_kernel None None 1 100 1 (1 / 2))
   = (inl ValueError, KLR.mk linear_kernel None (Some 0%nat) 1 100 1 (1 / 2), []) /\
  KLR.mk linear_kernel None (Some 0%nat) 1 100 1 (1 / 2)
   = KLR.set_Data (Some 0%nat) (KLR.mk linear_kernel None None 1 100 1 (1 / 2)).
Proof.
  assert (Htr := krr_train_1x1_singular 0 0 1 0%nat (heap_upd (const_heap [[1]]) 0%nat [[0]])
                   (KRR.mk linear_kernel (Some [1]) (Some 1%nat) 0)
                   eq_refl eq_refl eq_refl ltac:(lra)).
  assert (Htr' := klr_train_wrong_labels (const_heap [[1]]) 0%nat [1; 1]
                    (KLR.mk linear_kernel None None 1 100 1 (1 / 2))
                    ltac:(cbn; lia) ltac:(cbn; discriminate)).
  split; [exact Htr |]. split; [exact (proj1 failed_train_replaces_only_data _ _ _ _ _ _ _ Htr) |].
  split; [exact Htr' |].
  exact (proj2 failed_train_replaces_only_data _ _ _ _ _ _ _ Htr').
Defined.

(** C6 fails as stated: a ridge estimator trained on [X = [[1]]] (at
    location 1) and then retrained, with [Lambda = 0], on [X = [[0]]] (at
    location 0) raises [LinAlgError] on the singular system and is left
    with [Data] pointing to the new array while [Alpha] is the old one. *)
Lemma failed_train_overwrites_data :
  let H := heap_upd (const_heap [[1]]) 0%nat [[0]] in
  KRR.train H 1%nat [1] (krr_linear 0)
    = (inr tt, KRR.mk linear_kernel (Some [1 / (1 * 1 + 0)]) (Some 1%nat) 0, []) /\
  KRR.train H 0%nat [1] (KRR.mk linear_kernel (Some [1 / (1 * 1 + 0)]) (Some 1%nat) 0)
    = (inl LinAlgError, KRR.mk linear_kernel (Some [1 / (1 * 1 + 0)]) (Some 0%nat) 0, []) /\
  Some 0%nat <> Some 1%nat.
Proof.
  split; [| split].
  - apply krr_train_1x1; [reflexivity | lra].
  - apply (krr_train_1x1_singular 0 0); [reflexivity | reflexivity | reflexivity | lra].
  - discriminate.
Qed.

(** ** Construction *)

(** C8 (as the code does it): [__init__] validates nothing: whatever the
    hyperparameters, it returns an untrained estimator holding them as
    given, after printing a banner. *)
Theorem init_accepts_any_hyperparameters :
  (forall (k : kernel_func) (Lambda : R),
     KRR.init k Lambda = (inr (KRR.mk k None None Lambda), [Banner "Kernel Ridge Regression"])) /\
  (forall (k : kernel_func) (Lambda tol : R) (max_iter : Z) (threshold : R),
     KLR.init k Lambda tol max_iter threshold
       = (inr (KLR.mk k None None Lambda tol max_iter threshold),
          [Banner "Kernel Logistic Regression"])).
Proof. split; reflexivity. Qed.

(** C8 fails as stated: [Lambda = -1] for the ridge estimator, and
    [Lambda = -1], [tol = 0], [max_iter = 0], [threshold = 2] for the
    logistic one, give estimators, not a [ConfigError]. *)
Lemma init_negative_lambda_accepted :
  KRR.init linear_kernel (-1) = (inr (krr_linear (-1)), [Banner "Kernel Ridge Regression"]) /\
  KLR.init linear_kernel (-1) 0 0 2
    = (inr (KLR.mk linear_kernel None None (-1) 0 0 2), [Banner "Kernel Logistic Regression"]) /\
  fst (KRR.init linear_kernel (-1)) <> inl ConfigError /\
  fst (KLR.init linear_kernel (-1) 0 0 2) <> inl ConfigError.
Proof.
  split; [reflexivity |]. split; [reflexivity |]. split; discriminate.
Qed.

(** ** Aliasing of the training array *)

(** C9 (as the code does it): [train] stores a reference to the caller's
    array, not a copy: after a successful [train(X, y)], [Data] is the
    location of [X], and every later [predict] reads the array found there
    at the time of the call, with the [Alpha] computed by [train]. *)
Theorem train_keeps_reference :
  (forall H X y s s' o, KRR.train H X y s = (inr tt, s', o) ->
     KRR.Data s' = Some X /\
     exists a, KRR.Alpha s' = Some a /\
       forall (H' : heap) (Xn : mat),
         KRR.predict H' Xn s' = (mat_vec_checked (kernel_arr (KRR.Kernel s) Xn (H' X)) a, s', [])) /\
  (forall H X y s s' o, KLR.train H X y s = (inr tt, s', o) ->
     KLR.Data s' = Some X /\
     exists a, KLR.Alpha s' = Some a /\
       forall (H' : heap) (Xn : mat),
         KLR.predict H' Xn s' =
           (match mat_vec_checked (kernel_arr (KLR.Kernel s) Xn (H' X)) a with
            | inl e => inl e
            | inr f => inr (map (klr_label (KLR.threshold s)) f)
            end, s', [])).
Proof.
  split.
  - intros H X y s s' o Htr. rewrite krr_train_eq in Htr. cbv zeta in Htr.
    destruct (solve _ _) as [e | a]; [discriminate |]. injection Htr as <- _.
    split; [reflexivity |]. exists a. split; [reflexivity |].
    intros H' Xn. rewrite krr_predict_eq. reflexivity.
  - intros H X y s s' o Htr. rewrite klr_train_eq in Htr. cbv zeta in Htr.
    destruct (KLR.irls_loop _ _ _ _ _ _ _ _ _) as [e | [[[step error] a] |]];
      try discriminate.
    injection Htr as <- _.
    split; [reflexivity |]. exists a. split; [reflexivity |].
    intros H' Xn. rewrite klr_predict_eq. reflexivity.
Qed.

Lemma train_keeps_reference_witness :
  KRR.Data (KRR.mk linear_kernel (Some [1 / (1 * 1 + 0)]) (Some 0%nat) 0) = Some 0%nat /\
  exists a, KRR.Alpha (KRR.mk linear_kernel (Some [1 / (1 * 1 + 0)]) (Some 0%nat) 0) = Some a /\
    KRR.predict (heap_upd (const_heap [[1]]) 0%nat [[2]]) [[1]]
      (KRR.mk linear_kernel (Some [1 / (1 * 1 + 0)]) (Some 0%nat) 0)
    = (mat_vec_checked (kernel_arr linear_kernel [[1]] [[2]]) a,
       KRR.mk linear_kernel (Some [1 / (1 * 1 + 0)]) (Some 0%nat) 0, []).
Proof.
  assert (Htr := krr_train_1x1 0 1 1 0%nat (const_heap [[1]]) eq_refl ltac:(lra)).
  destruct (proj1 train_keeps_reference _ _ _ _ _ _ Htr) as [HD [a [HA Hp]]].
  split; [exact HD |]. exists a. split; [exact HA |].
  exact (Hp (heap_upd (const_heap [[1]]) 0%nat [[2]]) [[1]]).
Defined.

(** C9 fails as stated: after [train] on [X = [[1]]], [y = [[1]]] with the
    linear kernel and [Lambda = 0], [predict([[1]])] returns [[1]]; once
    the caller sets [X[0, 0] = 2] in place, the same call returns [[2]]. *)
Lemma mutating_X_changes_predictions :
  let s1 := KRR.mk linear_kernel (Some [1 / (1 * 1 + 0)]) (Some 0%nat) 0 in
  KRR.train (const_heap [[1]]) 0%nat [1] (krr_linear 0) = (inr tt, s1, []) /\
  KRR.predict (const_heap [[1]]) [[1]] s1 = (inr [1], s1, []) /\
  KRR.predict (heap_upd (const_heap [[1]]) 0%nat [[2]]) [[1]] s1 = (inr [2], s1, []).
Proof.
  cbv zeta. split; [| split].
  - apply krr_train_1x1; [reflexivity | lra].
  - rewrite krr_predict_eq. cbn -[Rdiv]. repeat f_equal. field.
  - rewrite krr_predict_eq. cbn -[Rdiv]. repeat f_equal. field.
Qed.

(** ** Frame of the public methods *)

(** C10: no method changes the configuration ([Kernel], [Lambda], and for
    the logistic estimator [tol], [max_iter], [threshold]); [train] sets
    [Data] to the new [X] and, when it succeeds, [Alpha] to the new
    coefficients (a [train] that raises leaves [Alpha] alone); [reset] sets
    both to [None]; [predict] changes nothing. *)
Theorem methods_change_only_data_and_alpha :
  (forall H X y s r s' o, KRR.train H X y s = (r, s', o) ->
     KRR.Kernel s' = KRR.Kernel s /\ KRR.Lambda s' = KRR.Lambda s /\
     KRR.Data s' = Some X /\
     (r = inr tt -> exists a, KRR.Alpha s' = Some a) /\
     (forall e, r = inl e -> KRR.Alpha s' = KRR.Alpha s)) /\
  (forall s r s' o, KRR.reset s = (r, s', o) ->
     s' = KRR.mk (KRR.Kernel s) None None (KRR.Lambda s)) /\
  (forall H Xn s r s' o, KRR.predict H Xn s = (r, s', o) -> s' = s) /\
  (forall H X y s r s' o, KLR.train H X y s = (r, s', o) ->
     KLR.Kernel s' = KLR.Kernel s /\ KLR.Lambda s' = KLR.Lambda s /\
     KLR.tol s' = KLR.tol s /\ KLR.max_iter s' = KLR.max_iter s /\
     KLR.threshold s' = KLR.threshold s /\
     KLR.Data s' = Some X /\
     (r = inr tt -> exists a, KLR.Alpha s' = Some a) /\
     (forall e, r = inl e -> KLR.Alpha s' = KLR.Alpha s)) /\
  (forall s r s' o, KLR.reset s = (r, s', o) ->
     s' = KLR.mk (KLR.Kernel s) None None (KLR.Lambda s) (KLR.tol s) (KLR.max_iter s)
                 (KLR.threshold s)) /\
  (forall H Xn s r s' o, KLR.predict H Xn s = (r, s', o) -> s' = s).
Proof.
  split; [| split; [| split; [| split; [| split]]]].
  - intros H X y s r s' o Htr. rewrite krr_train_eq in Htr. cbv zeta in Htr.
    destruct (solve _ _) as [e | a]; injection Htr as <- <- _;
      (split; [reflexivity | split; [reflexivity | split; [reflexivity | split]]]);
      intros; try discriminate; try (eexists; reflexivity); reflexivity.
  - intros s r s' o Hr. rewrite krr_reset_eq in Hr. injection Hr as _ <- _. reflexivity.
  - intros H Xn s r s' o Hp. rewrite krr_predict_eq in Hp. injection Hp as _ <- _. reflexivity.
  - intros H X y s r s' o Htr. rewrite klr_train_eq in Htr. cbv zeta in Htr.
    destruct (KLR.irls_loop _ _ _ _ _ _ _ _ _) as [e | [[[step error] a] |]];
      injection Htr as <- <- _;
      (split; [reflexivity | split; [reflexivity | split; [reflexivity |
        split; [reflexivity | split; [reflexivity | split; [reflexivity | split]]]]]]);
      intros; try discriminate; try (eexists; reflexivity); reflexivity.
  - intros s r s' o Hr. rewrite klr_reset_eq in Hr. injection Hr as _ <- _. reflexivity.
  - intros H Xn s r s' o Hp. rewrite klr_predict_eq in Hp. injection Hp as _ <- _. reflexivity.
Qed.

Lemma methods_change_only_data_and_alpha_witness :
  KRR.Kernel (KRR.mk linear_kernel (Some [1 / (1 * 1 + 0)]) (Some 0%nat) 0) = linear_kernel /\
  KRR.Lambda (KRR.mk linear_kernel (Some [1 / (1 * 1 + 0)]) (Some 0%nat) 0) = 0 /\
  KRR.Data (KRR.mk linear_kernel (Some [1 / (1 * 1 + 0)]) (Some 0%nat) 0) = Some 0%nat /\
  (@inr exc unit tt = inr tt ->
     exists a, KRR.Alpha (KRR.mk linear_kernel (Some [1 / (1 * 1 + 0)]) (Some 0%nat) 0) = Some a) /\
  (forall e, @inr exc unit tt = inl e ->
     KRR.Alpha (KRR.mk linear_kernel (Some [1 / (1 * 1 + 0)]) (Some 0%nat) 0) = None).
Proof.
  exact (proj1 methods_change_only_data_and_alpha (const_heap [[1]]) 0%nat [1] (krr_linear 0)
           _ _ [] (krr_train_1x1 0 1 1 0%nat (const_heap [[1]]) eq_refl ltac:(lra))).
Defined.

(** * Further properties of the code *)

(** ** How the Newton loop of [KernelLogisticRegression.train] ends *)

(** The loop ends at iteration [st], one of the [fuel] iterations it was
    given: either that iteration had [error < tol], or it is the last one
    and had [error >= tol]. *)
Lemma irls_loop_result (K : mat) (y : vec) (Lambda tol : R) (n step fuel : nat) (a : vec)
    (last : option (nat * R * vec)) (st : nat) (err : R) (a' : vec) :
  KLR.irls_loop K y Lambda tol n step fuel a last = inr (Some (st, err, a')) ->
  (fuel = 0%nat /\ last = Some (st, err, a')) \/
  ((step <= st < step + fuel)%nat /\ (err < tol \/ (S st = step + fuel)%nat /\ tol <= err)).
Proof.
  revert step a last. induction fuel as [| fuel IH]; intros step a last Hl.
  - left. cbn in Hl. injection Hl as ->. split; reflexivity.
  - right. rewrite irls_loop_S in Hl.
    destruct (KLR.newton_step K y Lambda n a) as [e | a1]; [discriminate |].
    destruct (Rlt_dec (norm (vsub a1 a)) tol) as [Hlt | Hge].
    + injection Hl as <- <- <-. split; [lia | left; exact Hlt].
    + destruct (IH _ _ _ Hl) as [[-> Hlast] | [Hst Herr]].
      * injection Hlast as <- <- <-. split; [lia |]. right. split; [lia |].
        apply Rnot_lt_le, Hge.
      * split; [lia |]. destruct Herr as [Herr | [Hs Herr]]; [left; exact Herr |].
        right. split; [lia | exact Herr].
Qed.

(** [train] prints the convergence warning exactly when its loop ran all
    [max_iter] iterations and the error of the last one is strictly above
    [tol]; otherwise it prints nothing, and then the last error is below
    [tol], or equal to [tol] on the last allowed iteration. *)
Theorem klr_train_warning_exact (H : heap) (X : loc) (y : vec) (s s' : KLR.t) (o : list event) :
  KLR.train H X y s = (inr tt, s', o) ->
  exists step err a,
    KLR.irls_loop (kernel_arr (KLR.Kernel s) (H X) (H X)) y (KLR.Lambda s) (KLR.tol s)
      (length (kernel_arr (KLR.Kernel s) (H X) (H X))) 0 (Z.to_nat (KLR.max_iter s))
      (zeros (length (kernel_arr (KLR.Kernel s) (H X) (H X)))) None
      = inr (Some (step, err, a)) /\
    KLR.Alpha s' = Some a /\ (S step <= Z.to_nat (KLR.max_iter s))%nat /\
    ((o = [NotConverged (KLR.max_iter s)] /\ S step = Z.to_nat (KLR.max_iter s) /\
      KLR.tol s < err) \/
     (o = [] /\ (err < KLR.tol s \/
                 (S step = Z.to_nat (KLR.max_iter s) /\ err = KLR.tol s)))).
Proof.
  intros Htr. rewrite klr_train_eq in Htr. cbv zeta in Htr.
  destruct (KLR.irls_loop _ _ _ _ _ _ _ _ _) as [e | [[[st err] a] |]] eqn:Hl;
    try discriminate.
  injection Htr as <- <-. exists st, err, a. split; [reflexivity |]. split; [reflexivity |].
  destruct (irls_loop_result _ _ _ _ _ _ _ _ _ _ _ _ Hl) as [[_ Hn] | [Hst Herr]];
    [discriminate |].
  split; [lia |].
  unfold KLR.not_converged.
  destruct Herr as [Hlt | [Hlast Hge]].
  - right. split; [| left; exact Hlt].
    destruct (Rgt_dec err (KLR.tol s)) as [Hgt | _]; [lra |].
    rewrite Bool.andb_false_r. reflexivity.
  - assert (Heq : Z.eqb (Z.of_nat st) (KLR.max_iter s - 1) = true) by (apply Z.eqb_eq; lia).
    rewrite Heq. cbn [andb].
    destruct (Rgt_dec err (KLR.tol s)) as [Hgt | Hngt].
    + left. split; [reflexivity |]. split; [lia | exact Hgt].
    + right. split; [reflexivity |]. right. split; [lia | lra].
Qed.

Lemma klr_train_warning_exact_witness :
  exists step err a,
    KLR.irls_loop (kernel_arr linear_kernel [[0]] [[0]]) [1] (1 / 8) 4
      (length (kernel_arr linear_kernel [[0]] [[0]])) 0 1
      (zeros (length (kernel_arr linear_kernel [[0]] [[0]]))) None
      = inr (Some (step, err, a)) /\
    Some [4] = Some a /\ (S step <= 1)%nat /\
    (([] : list event) = [NotConverged 1] /\ S step = 1%nat /\ 4 < err \/
     ([] : list event) = [] /\ (err < 4 \/ (S step = 1%nat /\ err = 4))).
Proof.
  exact (klr_train_warning_exact (const_heap [[0]]) 0%nat [1] klr_example _ [] klr_example_train).
Defined.

(** ** The derivatives computed by [KernelLogisticRegression.loss] *)

Lemma derivable_pt_lim_one_plus_exp_opp (x : R) :
  derivable_pt_lim (fun t => 1 + exp (- t)) x (- exp (- x)).
Proof.
  replace (- exp (- x)) with (0 + exp (- x) * (-1)) by ring.
  apply (derivable_pt_lim_plus (fct_cte 1) (fun t => exp (- t))).
  - apply derivable_pt_lim_const.
  - apply (derivable_pt_lim_comp (fun t => - t) exp x (-1) (exp (- x))).
    + replace (-1) with (- 1) by ring. apply (derivable_pt_lim_opp id). apply derivable_pt_lim_id.
    + apply derivable_pt_lim_exp.
Qed.

Lemma derivable_pt_lim_one_plus_exp (x : R) :
  derivable_pt_lim (fun t => 1 + exp t) x (exp x).
Proof.
  pose proof (derivable_pt_lim_plus (fct_cte 1) exp x 0 (exp x)
                (derivable_pt_lim_const 1 x) (derivable_pt_lim_exp x)) as Hd.
  rewrite Rplus_0_l in Hd. exact Hd.
Qed.

(** The entries of [loss(s)] are the first and second derivatives of the
    logistic loss [log(1 + exp(-t))]: [l1] is its derivative and [l2] the
    derivative of [l1], at every point. *)
Theorem loss_derivatives (s : vec) :
  exists l1 l2 : R -> R,
    KLR.loss s = (diag (map l1 s), diag (map l2 s)) /\
    forall x, derivable_pt_lim (fun t => ln (1 + exp (- t))) x (l1 x) /\
              derivable_pt_lim l1 x (l2 x).
Proof.
  exists (fun si => (-1) / (1 + exp si)), (fun si => exp si / (1 + exp si) ^ 2).
  split; [reflexivity |]. intros x.
  pose proof (exp_pos x) as He. pose proof (exp_pos (- x)) as He'.
  assert (Hex : exp (- x) * exp x = 1) by (rewrite <- exp_plus; replace (- x + x) with 0 by ring;
                                          apply exp_0).
  split.
  - replace ((-1) / (1 + exp x)) with (/ (1 + exp (- x)) * (- exp (- x))).
    + apply (derivable_pt_lim_comp (fun t => 1 + exp (- t)) ln x (- exp (- x))
               (/ (1 + exp (- x)))).
      * apply derivable_pt_lim_one_plus_exp_opp.
      * apply derivable_pt_lim_ln. lra.
    + rewrite exp_Ropp. rewrite exp_Ropp in He'.
      field. split; lra.
  - replace (exp x / (1 + exp x) ^ 2) with ((0 * (1 + exp x) - exp x * (-1)) / Rsqr (1 + exp x))
      by (unfold Rsqr; field; lra).
    apply (derivable_pt_lim_div (fct_cte (-1)) (fun t => 1 + exp t)).
    + apply derivable_pt_lim_const.
    + apply derivable_pt_lim_one_plus_exp.
    + lra.
Qed.

(** ** How [KernelRidgeRegression.train] ends *)

Lemma solve_wrong_length (A : mat) (b : vec) :
  square A = true -> length b <> length A -> solve A b = inl ValueError.
Proof.
  intros Hsq Hb. unfold solve. rewrite Hsq. simpl.
  destruct (Nat.eq_dec (length b) (length A)); [contradiction | reflexivity].
Qed.

Lemma solve_errors (A : mat) (b : vec) (e : exc) :
  solve A b = inl e -> e = LinAlgError \/ e = ValueError.
Proof.
  unfold solve. destruct (negb (square A)); [intros [= <-]; left; reflexivity |].
  destruct (Nat.eq_dec _ _); [| intros [= <-]; right; reflexivity].
  destruct (excluded_middle_informative _); [discriminate | intros [= <-]; left; reflexivity].
Qed.

(** With a square system matrix [A = K + Lambda n I], [train(X, y)]
    raises [ValueError] when [y] does not have one entry per row of [A],
    raises [LinAlgError] when [A] is singular, and otherwise stores the
    unique solution of [A Alpha = y]; in each case [Data] is [X]. *)
Theorem krr_train_outcome (H : heap) (X : loc) (y : vec) (s : KRR.t) :
  square (krr_system s (kernel_arr (KRR.Kernel s) (H X) (H X))) = true ->
  (length y <> length (krr_system s (kernel_arr (KRR.Kernel s) (H X) (H X))) ->
     KRR.train H X y s = (inl ValueError, KRR.set_Data (Some X) s, [])) /\
  (length y = length (krr_system s (kernel_arr (KRR.Kernel s) (H X) (H X))) ->
   ~ uniquely_solvable (krr_system s (kernel_arr (KRR.Kernel s) (H X) (H X))) ->
     KRR.train H X y s = (inl LinAlgError, KRR.set_Data (Some X) s, [])) /\
  (length y = length (krr_system s (kernel_arr (KRR.Kernel s) (H X) (H X))) ->
   uniquely_solvable (krr_system s (kernel_arr (KRR.Kernel s) (H X) (H X))) ->
     exists a, KRR.train H X y s
                 = (inr tt, KRR.set_Alpha (Some a) (KRR.set_Data (Some X) s), []) /\
       length a = length y /\
       mat_vec (krr_system s (kernel_arr (KRR.Kernel s) (H X) (H X))) a = y).
Proof.
  intros Hsq. rewrite krr_train_eq. cbv zeta.
  change (madd ?K (scale (KRR.Lambda s * INR (length ?K)) (eye (length ?K))))
    with (krr_system s K).
  set (A := krr_system s _) in *.
  split; [| split].
  - intros Hy. rewrite solve_wrong_length by assumption. reflexivity.
  - intros Hy HA. rewrite solve_singular by assumption. reflexivity.
  - intros Hy HA. destruct (HA y Hy) as [a [[Ha HAa] _]].
    exists a. rewrite (solve_unique A y a) by assumption.
    split; [reflexivity |]. split; [congruence | exact HAa].
Qed.

Lemma krr_train_outcome_witness :
  square (krr_system (krr_linear 1) (kernel_arr linear_kernel [[1]] [[1]])) = true /\
  (length [1; 1] <> length (krr_system (krr_linear 1) (kernel_arr linear_kernel [[1]] [[1]])) ->
     KRR.train (const_heap [[1]]) 0%nat [1; 1] (krr_linear 1)
       = (inl ValueError, KRR.set_Data (Some 0%nat) (krr_linear 1), [])) /\
  (length [1; 1] = length (krr_system (krr_linear 1) (kernel_arr linear_kernel [[1]] [[1]])) ->
   ~ uniquely_solvable (krr_system (krr_linear 1) (kernel_arr linear_kernel [[1]] [[1]])) ->
     KRR.train (const_heap [[1]]) 0%nat [1; 1] (krr_linear 1)
       = (inl LinAlgError, KRR.set_Data (Some 0%nat) (krr_linear 1), [])) /\
  (length [1; 1] = length (krr_system (krr_linear 1) (kernel_arr linear_kernel [[1]] [[1]])) ->
   uniquely_solvable (krr_system (krr_linear 1) (kernel_arr linear_kernel [[1]] [[1]])) ->
     exists a, KRR.train (const_heap [[1]]) 0%nat [1; 1] (krr_linear 1)
                 = (inr tt, KRR.set_Alpha (Some a) (KRR.set_Data (Some 0%nat) (krr_linear 1)), []) /\
       length a = length [1; 1] /\
       mat_vec (krr_system (krr_linear 1) (kernel_arr linear_kernel [[1]] [[1]])) a = [1; 1]).
Proof.
  split; [reflexivity |].
  exact (krr_train_outcome (const_heap [[1]]) 0%nat [1; 1] (krr_linear 1) eq_refl).
Defined.

(** ** How [KernelLogisticRegression.train] raises *)

Lemma newton_step_errors (K : mat) (y : vec) (Lambda : R) (n : nat) (a : vec) (e : exc) :
  KLR.newton_step K y Lambda n a = inl e -> e = LinAlgError \/ e = ValueError.
Proof.
  unfold KLR.newton_step. destruct (mat_vec_checked K a) as [e' | m] eqn:Hm.
  - intros [= <-]. right. exact (mat_vec_checked_inl _ _ _ Hm).
  - destruct (negb _); [intros [= <-]; right; reflexivity |].
    destruct (KLR.loss _). apply solve_errors.
Qed.

Lemma irls_loop_S_result (K : mat) (y : vec) (Lambda tol : R) (n step fuel : nat) (a : vec)
    (last : option (nat * R * vec)) (r : exc + option (nat * R * vec)) :
  KLR.irls_loop K y Lambda tol n step (S fuel) a last = r ->
  (exists e, r = inl e /\ (e = LinAlgError \/ e = ValueError)) \/ (exists t, r = inr (Some t)).
Proof.
  revert step a last. induction fuel as [| fuel IH]; intros step a last Hl;
    rewrite irls_loop_S in Hl;
    destruct (KLR.newton_step K y Lambda n a) as [e | a'] eqn:Hs.
  1, 3: left; exists e; split; [congruence | exact (newton_step_errors _ _ _ _ _ _ Hs)].
  - right. destruct (Rlt_dec _ _); eexists; symmetry; exact Hl.
  - destruct (Rlt_dec _ _); [right; eexists; symmetry; exact Hl | exact (IH _ _ _ Hl)].
Qed.

(** [train] raises [UnboundLocalError] exactly when [max_iter <= 0]: the
    loop body never runs, so [step] is unbound at the check after the
    loop; [Data] has already been set to [X] and nothing else changes.
    With [max_iter >= 1], labels [y] whose length is not the number of
    rows of [K] make the first iteration raise [ValueError] (in [y*m],
    [W @ m] or [P @ y]), and in every run the only exceptions are
    [LinAlgError] and [ValueError], from these products or from
    [np.linalg.solve]. *)
Theorem klr_train_raises (H : heap) (X : loc) (y : vec) (s : KLR.t) :
  ((KLR.max_iter s <= 0)%Z ->
     KLR.train H X y s = (inl UnboundLocalError, KLR.set_Data (Some X) s, [])) /\
  ((1 <= KLR.max_iter s)%Z -> length y <> length (kernel_arr (KLR.Kernel s) (H X) (H X)) ->
     KLR.train H X y s = (inl ValueError, KLR.set_Data (Some X) s, [])) /\
  ((1 <= KLR.max_iter s)%Z -> forall e s' o, KLR.train H X y s = (inl e, s', o) ->
     e = LinAlgError \/ e = ValueError).
Proof.
  split; [| split; [apply klr_train_wrong_labels |]].
  - rewrite klr_train_eq. cbv zeta.
    intros Hm. replace (Z.to_nat (KLR.max_iter s)) with 0%nat by lia. reflexivity.
  - rewrite klr_train_eq. cbv zeta. intros Hm e s' o Htr.
    replace (Z.to_nat (KLR.max_iter s)) with (S (Z.to_nat (KLR.max_iter s) - 1)) in Htr by lia.
    destruct (KLR.irls_loop _ _ _ _ _ _ _ _ _) as [e' | [t |]] eqn:Hl in Htr;
      destruct (irls_loop_S_result _ _ _ _ _ _ _ _ _ _ Hl) as [[e'' [Hr He'']] | [t' Hr]];
      try discriminate.
    + injection Hr as <-. injection Htr as <- _ _. exact He''.
    + destruct t as [[step error] a]. discriminate.
Qed.

(** ** Thresholds of [KernelLogisticRegression.predict] *)

Lemma sigmoid_bounds (x : R) : 0 < 1 / (1 + exp (- x)) < 1.
Proof.
  pose proof (exp_pos (- x)) as He. unfold Rdiv. rewrite Rmult_1_l. split.
  - apply Rinv_0_lt_compat. lra.
  - rewrite <- Rinv_1 at 2. apply Rinv_lt_contravar; lra.
Qed.

Lemma sigmoid_gt_half (x : R) : 1 / (1 + exp (- x)) > 1 / 2 <-> x > 0.
Proof.
  pose proof (exp_pos (- x)) as He. unfold Rdiv. rewrite !Rmult_1_l. split.
  - intros Hgt. destruct (Rlt_or_le (exp (- x)) 1) as [Hlt | Hle].
    + rewrite <- exp_0 in Hlt. apply exp_lt_inv in Hlt. lra.
    + assert (/ (1 + exp (- x)) <= / 2) by (apply Rinv_le_contravar; lra). lra.
  - intros Hx. assert (Hlt : exp (- x) < exp 0) by (apply exp_increasing; lra).
    rewrite exp_0 in Hlt. apply Rinv_lt_contravar; nra.
Qed.

(** Since the sigmoid takes its values strictly between 0 and 1,
    [predict] labels every row [-1] when [threshold >= 1] and every row
    [+1] when [threshold < 0]; with [threshold = 1/2] the label of a row is
    [+1] exactly when its decision value [f] is positive. *)
Theorem klr_predict_threshold_cases (H : heap) (Xn : mat) (s s' : KLR.t) (out : list Z)
    (o : list event) :
  KLR.predict H Xn s = (inr out, s', o) ->
  (1 <= KLR.threshold s -> Forall (fun v => v = (-1)%Z) out) /\
  (KLR.threshold s < 0 -> Forall (fun v => v = 1%Z) out) /\
  (KLR.threshold s = 1 / 2 ->
     exists K a, apply_kernel (KLR.Kernel s) Xn (option_map H (KLR.Data s)) = inr K /\
       KLR.Alpha s = Some a /\
       out = map (fun fi => if Rgt_dec fi 0 then 1%Z else (-1)%Z) (mat_vec K a)).
Proof.
  intros Hp. rewrite klr_predict_eq in Hp.
  destruct (apply_kernel _ _ _) as [e | K] eqn:Hk; [discriminate |].
  destruct (KLR.Alpha s) as [a |]; [| discriminate].
  destruct (mat_vec_checked K a) as [e | f] eqn:Hm; [discriminate |].
  injection Hp as <- _ _.
  assert (Hf : f = mat_vec K a).
  { unfold mat_vec_checked in Hm. destruct (forallb _ _); congruence. }
  subst f. split; [| split].
  - intros Ht. apply Forall_map, Forall_forall. intros fi _. unfold klr_label.
    pose proof (sigmoid_bounds fi). destruct (Rgt_dec _ _); [lra | reflexivity].
  - intros Ht. apply Forall_map, Forall_forall. intros fi _. unfold klr_label.
    pose proof (sigmoid_bounds fi). destruct (Rgt_dec _ _); [reflexivity | lra].
  - intros Ht. exists K, a. split; [reflexivity |]. split; [reflexivity |].
    apply map_ext. intros fi. unfold klr_label. rewrite Ht.
    pose proof (sigmoid_gt_half fi).
    destruct (Rgt_dec _ (1 / 2)), (Rgt_dec fi 0); try reflexivity; tauto.
Qed.

Lemma klr_predict_threshold_cases_witness :
  KLR.predict (const_heap [[1]]) [[1]] klr_trained
    = (inr (map (klr_label (1 / 2)) (mat_vec (kernel_arr linear_kernel [[1]] [[1]]) [0])),
       klr_trained, []) /\
  (1 <= KLR.threshold klr_trained ->
     Forall (fun v => v = (-1)%Z)
       (map (klr_label (1 / 2)) (mat_vec (kernel_arr linear_kernel [[1]] [[1]]) [0]))) /\
  (KLR.threshold klr_trained < 0 ->
     Forall (fun v => v = 1%Z)
       (map (klr_label (1 / 2)) (mat_vec (kernel_arr linear_kernel [[1]] [[1]]) [0]))) /\
  (KLR.threshold klr_trained = 1 / 2 ->
     exists K a, apply_kernel (KLR.Kernel klr_trained) [[1]]
                   (option_map (const_heap [[1]]) (KLR.Data klr_trained)) = inr K /\
       KLR.Alpha klr_trained = Some a /\
       map (klr_label (1 / 2)) (mat_vec (kernel_arr linear_kernel [[1]] [[1]]) [0])
         = map (fun fi => if Rgt_dec fi 0 then 1%Z else (-1)%Z) (mat_vec K a)).
Proof.
  assert (Hp : KLR.predict (const_heap [[1]]) [[1]] klr_trained
    = (inr (map (klr_label (1 / 2)) (mat_vec (kernel_arr linear_kernel [[1]] [[1]]) [0])),
       klr_trained, [])).
  { rewrite klr_predict_eq. reflexivity. }
  split; [exact Hp |].
  exact (klr_predict_threshold_cases _ _ _ _ _ _ Hp).
Defined.

(** ** A successful [train] forgets the previous model *)

(** The result of a successful [train(X, y)] depends on the configuration
    only: running it on the same estimator with any other [Data] and
    [Alpha] (for instance after [reset], or after training on other data)
    gives the same estimator and the same output. *)
Theorem train_ignores_previous_model :
  (forall H X y s s' o (a : option vec) (d : option loc),
     KRR.train H X y s = (inr tt, s', o) ->
     KRR.train H X y (KRR.mk (KRR.Kernel s) a d (KRR.Lambda s)) = (inr tt, s', o)) /\
  (forall H X y s s' o (a : option vec) (d : option loc),
     KLR.train H X y s = (inr tt, s', o) ->
     KLR.train H X y (KLR.mk (KLR.Kernel s) a d (KLR.Lambda s) (KLR.tol s) (KLR.max_iter s)
                        (KLR.threshold s)) = (inr tt, s', o)).
Proof.
  split.
  - intros H X y s s' o a d Htr. rewrite krr_train_eq in Htr |- *. cbv zeta in Htr |- *.
    cbn [KRR.Kernel KRR.Lambda]. destruct (solve _ _); [discriminate |].
    rewrite <- Htr. reflexivity.
  - intros H X y s s' o a d Htr. rewrite klr_train_eq in Htr |- *. cbv zeta in Htr |- *.
    cbn [KLR.Kernel KLR.Lambda KLR.tol KLR.max_iter KLR.threshold].
    destruct (KLR.irls_loop _ _ _ _ _ _ _ _ _) as [e | [[[step error] a'] |]];
      try discriminate.
    rewrite <- Htr. reflexivity.
Qed.

(** ** [K @ self.Alpha] in [predict] *)

(** When a row of [Kernel(X_new, Data)] does not have one entry per entry
    of [Alpha], the product in [predict] raises [ValueError] and the
    estimator is left unchanged; this holds for both estimators. *)
Theorem predict_shape_mismatch :
  (forall (H : heap) (Xn : mat) (s : KRR.t) (d : loc) (a : vec) (r : vec),
     KRR.Data s = Some d -> KRR.Alpha s = Some a ->
     In r (kernel_arr (KRR.Kernel s) Xn (H d)) -> length r <> length a ->
     KRR.predict H Xn s = (inl ValueError, s, [])) /\
  (forall (H : heap) (Xn : mat) (s : KLR.t) (d : loc) (a : vec) (r : vec),
     KLR.Data s = Some d -> KLR.Alpha s = Some a ->
     In r (kernel_arr (KLR.Kernel s) Xn (H d)) -> length r <> length a ->
     KLR.predict H Xn s = (inl ValueError, s, [])).
Proof.
  assert (Hmv : forall K a r, In r K -> length r <> length a -> mat_vec_checked K a = inl ValueError).
  { intros K a r Hr Hl. unfold mat_vec_checked.
    destruct (forallb _ K) eqn:Hf; [| reflexivity]. exfalso.
    rewrite forallb_forall in Hf. apply Hl, Nat.eqb_eq, Hf, Hr. }
  split.
  - intros H Xn s d a r HD HA Hr Hl. rewrite krr_predict_eq, HD, HA. cbn [option_map apply_kernel].
    rewrite (Hmv _ _ r Hr Hl). reflexivity.
  - intros H Xn s d a r HD HA Hr Hl. rewrite klr_predict_eq, HD, HA. cbn [option_map apply_kernel].
    rewrite (Hmv _ _ r Hr Hl). reflexivity.
Qed.

(** ** Predictions of Kernel Ridge Regression on its training data *)

Lemma nth_zip_with {A B C} (f : A -> B -> C) (l1 : list A) (l2 : list B) d1 d2 d (i : nat) :
  (i < length l1)%nat -> (i < length l2)%nat ->
  nth i (zip_with f l1 l2) d = f (nth i l1 d1) (nth i l2 d2).
Proof.
  revert l2 i; induction l1 as [| x l1 IH]; intros [| z l2] [| i] H1 H2; cbn in *;
    try lia; try reflexivity.
  apply IH; lia.
Qed.

Lemma nth_mat_vec (M : mat) (a : vec) (i : nat) :
  nth i (mat_vec M a) 0 = dot (nth i M []) a.
Proof. revert i; induction M as [| r M IH]; intros [| i]; try reflexivity. apply IH. Qed.

Lemma nth_map_R (f : R -> R) (v : vec) (i : nat) :
  (i < length v)%nat -> nth i (map f v) 0 = f (nth i v 0).
Proof. intros Hi. rewrite (nth_indep _ 0 (f 0)) by (rewrite length_map; exact Hi). apply map_nth. Qed.

Lemma dot_vadd (r e a : vec) :
  length r = length a -> length e = length a -> dot (vadd r e) a = dot r a + dot e a.
Proof.
  revert e a; induction r as [| x r IH]; intros [| u e] [| z a] Hr He; cbn in *;
    try lia; unfold dot, sum in *; cbn; [ring |].
  rewrite IH by lia. ring.
Qed.

Lemma dot_scale (c : R) (e a : vec) : dot (map (Rmult c) e) a = c * dot e a.
Proof.
  revert a; induction e as [| x e IH]; intros [| z a]; unfold dot, sum in *; cbn; try ring.
  rewrite IH. ring.
Qed.

Lemma dot_eye_row_before (i k m : nat) (a : vec) :
  (i < k)%nat -> dot (map (fun j => if Nat.eqb i j then 1 else 0) (seq k m)) a = 0.
Proof.
  revert k a; induction m as [| m IH]; intros k [| z a] Hi; try reflexivity.
  cbn [seq map]. unfold dot, sum in *. cbn [zip_with fold_right].
  rewrite IH by lia. destruct (Nat.eqb_spec i k); [lia | ring].
Qed.

Lemma dot_eye_row (i k m : nat) (a : vec) :
  length a = m -> (k <= i < k + m)%nat ->
  dot (map (fun j => if Nat.eqb i j then 1 else 0) (seq k m)) a = nth (i - k) a 0.
Proof.
  revert k a; induction m as [| m IH]; intros k [| z a] Ha Hi; cbn in Ha; try lia.
  cbn [seq map]. unfold dot, sum. cbn [zip_with fold_right]. fold (sum (zip_with Rmult
    (map (fun j => if Nat.eqb i j then 1 else 0) (seq (S k) m)) a)).
  fold (dot (map (fun j => if Nat.eqb i j then 1 else 0) (seq (S k) m)) a).
  destruct (Nat.eqb_spec i k) as [-> | Hne].
  - rewrite dot_eye_row_before by lia. rewrite Nat.sub_diag. cbn. ring.
  - rewrite IH by lia. replace (i - k)%nat with (S (i - S k)) by lia. cbn. ring.
Qed.

(** [K a = (K + c I) a - c a] for a square [K] *)
Lemma mat_vec_ridge (K : mat) (c : R) (a : vec) :
  square K = true -> length a = length K ->
  mat_vec K a = vsub (mat_vec (madd K (scale c (eye (length K)))) a) (map (Rmult c) a).
Proof.
  intros Hsq Ha. pose proof (proj1 (Forall_forall _ _) (square_forall K Hsq)) as Hrows.
  destruct (eye_rows (length K)) as [He Herows].
  apply nth_ext with (d := 0) (d' := 0).
  - unfold vsub, mat_vec, madd, scale. rewrite length_zip_with, !length_map, length_zip_with,
      length_map, He. unfold vec, mat in *. lia.
  - intros i Hi. unfold mat_vec in Hi. rewrite length_map in Hi.
    unfold vsub. rewrite (nth_zip_with _ _ _ 0 0)
      by (unfold mat_vec, madd, scale; rewrite ?length_map, ?length_zip_with, ?length_map, ?He;
          unfold vec, mat in *; lia).
    rewrite !nth_mat_vec, nth_map_R by (unfold vec, mat in *; lia).
    unfold madd. rewrite (nth_zip_with vadd K _ ([] : vec) ([] : vec))
      by (unfold scale; rewrite ?length_map, ?He; unfold vec, mat in *; lia).
    assert (Hs : @nth vec i (scale c (eye (length K))) []
                 = map (Rmult c) (@nth vec i (eye (length K)) []))
      by exact (map_nth (map (Rmult c)) (eye (length K)) [] i).
    assert (Hrow : @nth vec i (eye (length K)) []
                   = map (fun j => if Nat.eqb i j then 1 else 0) (seq 0 (length K))).
    { unfold eye. rewrite (nth_indep _ [] (map (fun j => if Nat.eqb 0 j then 1 else 0)
                                             (seq 0 (length K))))
        by (rewrite length_map, length_seq; exact Hi).
      rewrite (map_nth (fun i => map (fun j => if Nat.eqb i j then 1 else 0) (seq 0 (length K)))).
      rewrite seq_nth by exact Hi. reflexivity. }
    assert (HKi : length (nth i K []) = length K) by (apply Hrows, nth_In; exact Hi).
    rewrite Hs, Hrow, dot_vadd, dot_scale, (dot_eye_row i 0 (length K)) by
      (rewrite ?length_map, ?length_seq; unfold vec, mat in *; lia).
    rewrite Nat.sub_0_r. unfold vec, mat in *. ring.
Qed.

(** For a square Gram matrix [K = Kernel(X, X)], after a successful
    [train(X, y)], [predict(X)] on the same array returns
    [y - Lambda n Alpha]: the training residual is [Lambda n] times the
    stored coefficients. *)
Theorem krr_training_residual (H : heap) (X : loc) (y : vec) (s s' : KRR.t) (o : list event) :
  square (kernel_arr (KRR.Kernel s) (H X) (H X)) = true ->
  KRR.train H X y s = (inr tt, s', o) ->
  exists a, KRR.Alpha s' = Some a /\
    KRR.predict H (H X) s' =
      (inr (vsub y (map (Rmult (KRR.Lambda s * INR (length (kernel_arr (KRR.Kernel s) (H X) (H X)))))
                        a)), s', []).
Proof.
  intros Hsq Htr. rewrite krr_train_eq in Htr. cbv zeta in Htr.
  set (K := kernel_arr (KRR.Kernel s) (H X) (H X)) in *.
  destruct (solve _ _) as [e | a] eqn:Hs; [discriminate |].
  injection Htr as <- _. exists a. split; [reflexivity |].
  destruct (solve_sound _ _ _ Hs) as [Ha HAa].
  assert (HaK : length a = length K).
  { rewrite Ha. unfold madd, scale. rewrite length_zip_with, length_map.
    rewrite (proj1 (eye_rows (length K))). unfold vec, mat in *. lia. }
  rewrite krr_predict_eq. cbn [KRR.set_Alpha KRR.set_Data KRR.Kernel KRR.Data KRR.Alpha
                               option_map apply_kernel].
  fold K. unfold mat_vec_checked.
  replace (forallb _ K) with true.
  - rewrite <- HAa, <- mat_vec_ridge by assumption. reflexivity.
  - symmetry. apply forallb_forall. intros r Hr. apply Nat.eqb_eq. rewrite HaK.
    exact (proj1 (Forall_forall _ _) (square_forall K Hsq) r Hr).
Qed.

Lemma krr_training_residual_witness :
  square (kernel_arr linear_kernel [[1]] [[1]]) = true /\
  KRR.train (const_heap [[1]]) 0%nat [1] (krr_linear 1)
    = (inr tt, KRR.mk linear_kernel (Some [1 / (1 * 1 + 1)]) (Some 0%nat) 1, []) /\
  exists a, KRR.Alpha (KRR.mk linear_kernel (Some [1 / (1 * 1 + 1)]) (Some 0%nat) 1) = Some a /\
    KRR.predict (const_heap [[1]]) (const_heap [[1]] 0%nat)
      (KRR.mk linear_kernel (Some [1 / (1 * 1 + 1)]) (Some 0%nat) 1) =
      (inr (vsub [1] (map (Rmult (1 * INR (length (kernel_arr linear_kernel [[1]] [[1]])))) a)),
       KRR.mk linear_kernel (Some [1 / (1 * 1 + 1)]) (Some 0%nat) 1, []).
Proof.
  assert (Htr := krr_train_1x1 1 1 1 0%nat (const_heap [[1]]) eq_refl ltac:(lra)).
  split; [reflexivity |]. split; [exact Htr |].
  exact (krr_training_residual (const_heap [[1]]) 0%nat [1] (krr_linear 1) _ [] eq_refl Htr).
Defined.
